(** * SQNBitGemm: block layout arithmetic and kernel dispatch contracts

    A shallow embedding of [onnxruntime/core/mlas/lib/sqnbitgemm.h]:
    the two [constexpr] sizing helpers, the [MLAS_SQNBIT_GEMM_DISPATCH]
    structure of optional kernel slots, and the buffer sizes its comments
    document. *)

From Stdlib Require Import ZArith List Lia Bool.
Import ListNotations.

Local Open Scope Z_scope.

(** ** [size_t] arithmetic

    [size_t] is an unsigned integer of [size_bits] bits (at least 16 by the
    C standard; 64 on the x64 and arm64 targets).  Values are integers in
    [0, 2^size_bits) and every arithmetic result is reduced modulo
    [2^size_bits]. *)

Module SizeT.

Definition modulus (size_bits : Z) : Z := 2 ^ size_bits.

Definition SIZE_MAX (size_bits : Z) : Z := modulus size_bits - 1.

Definition wrap (size_bits : Z) (z : Z) : Z := z mod modulus size_bits.

Definition in_range (size_bits : Z) (z : Z) : Prop :=
  0 <= z < modulus size_bits.

Definition mul (size_bits : Z) (a b : Z) : Z := wrap size_bits (a * b).

Definition div (a b : Z) : Z := a / b.

End SizeT.

(** ** Block layout calculator (sqnbitgemm.h, lines 28-43) *)

Section BlockLayout.

Variable size_bits : Z.

(** [return BlkLen * BlkBitWidth / 8;] over [size_t]: the product wraps, the
    division truncates. *)
Definition MlasQNBitBlkDataSizeInBytes (BlkBitWidth BlkLen : Z) : Z :=
  SizeT.div (SizeT.mul size_bits BlkLen BlkBitWidth) 8.

End BlockLayout.

(** Modelled from the spec: [MlasDivRoundup] is declared in mlasi.h, which is
    not among the sources at hand.  The spec gives the value computed through
    it as [ceil(BlockCount/2)], so it is taken to be the exact ceiling of
    [up / down]: the quotient, plus one when the division leaves a
    remainder. *)
Definition MlasDivRoundup (up down : Z) : Z :=
  up / down + (if up mod down =? 0 then 0 else 1).

(** [template <size_t BlkBitWidth>]: the template argument is the first
    parameter; [if constexpr (BlkBitWidth <= 4)] selects the branch. *)
Definition MlasQNBitZeroPointsForBlksSizeInBytes (BlkBitWidth BlkCount : Z)
  : Z :=
  if BlkBitWidth <=? 4
  then MlasDivRoundup BlkCount 2 (* 2 blocks per byte *)
  else BlkCount.

(** ** Memory and the types the prototypes mention *)

(** A pointer is a byte address; [nullptr] for an optional argument is
    [None]. *)
Definition ptr : Type := Z.

(** Byte-addressed memory.  A [void] kernel is a memory transformer. *)
Definition Memory : Type := Z -> Byte.byte.

(** Modelled from the spec: the enumeration [MLAS_SQNBIT_GEMM_COMPUTE_TYPE]
    is declared in mlas_qnbit.h, not among the sources.  The spec names two
    compute paths, float activations and int8-quantized activations. *)
Inductive MLAS_SQNBIT_GEMM_COMPUTE_TYPE : Type :=
  | CompFp32
  | CompInt8.

(** Modelled from the spec: [MLAS_THREADPOOL] is declared outside the sources.
    The spec describes it as a partition-and-join executor (submit N
    independent tasks, block until all complete); it is represented by the
    order in which it runs the ids [0 .. n-1] of [n] submitted tasks. *)
Record MLAS_THREADPOOL : Type := {
  schedule : nat -> list nat
}.

(** ** Kernel dispatch structure (sqnbitgemm.h, lines 49-238)

    Each [typedef] becomes a function type whose arguments follow the
    prototype in order; [size_t] arguments are integers, pointer arguments
    are addresses, arguments documented as optional are [option ptr]. *)

Definition SQ4BitGemmPackQuantBDataSize_Fn : Type :=
  Z (* N *) -> Z (* K *) -> Z (* BlkLen *) ->
  MLAS_SQNBIT_GEMM_COMPUTE_TYPE -> Z.

Definition SQ4BitGemmPackQuantBData_Fn : Type :=
  Z (* N *) -> Z (* K *) -> Z (* BlkLen *) ->
  MLAS_SQNBIT_GEMM_COMPUTE_TYPE ->
  ptr (* QuantBDataBegin *) -> ptr (* PackedQuantBDataBegin *) ->
  option MLAS_THREADPOOL -> Memory -> Memory.

Definition SQ4BitGemmPerGemmWorkspaceSize_Fn : Type :=
  Z (* M *) -> Z (* N *) -> Z (* K *) -> Z (* BlkLen *) ->
  MLAS_SQNBIT_GEMM_COMPUTE_TYPE -> Z.

Definition SQ4BitGemmPerGemmWorkspaceAlignment_Fn : Type :=
  Z (* BlkLen *) -> MLAS_SQNBIT_GEMM_COMPUTE_TYPE -> Z.

Definition SQ4BitGemmM1Kernel_CompFp32_Fn : Type :=
  Z (* BlkLen *) -> ptr (* A *) -> ptr (* QuantBData *) ->
  ptr (* QuantBScale *) -> option ptr (* QuantBZeroPoint *) ->
  ptr (* C *) -> Z (* CountN *) -> Z (* CountK *) ->
  Z (* BlockStrideQuantB *) -> option ptr (* Bias *) -> Memory -> Memory.

Definition Q4BitBlkDequantBForSgemm_CompFp32_Fn : Type :=
  Z (* BlkLen *) -> ptr (* FpData *) -> ptr (* QuantBData *) ->
  ptr (* QuantBScale *) -> option ptr (* QuantBZeroPoint *) ->
  Z (* CountN *) -> Z (* CountK *) -> Z (* BlockStrideQuantB *) ->
  Memory -> Memory.

(** Returns the updated memory and the number of rows processed. *)
Definition SQ4BitGemmKernel_CompInt8_Fn : Type :=
  Z (* BlkLen *) -> ptr (* QuantA *) -> ptr (* QuantBData *) ->
  ptr (* QuantBScale *) -> option ptr (* QuantBZeroPoint *) ->
  ptr (* C *) -> Z (* CountM *) -> Z (* CountN *) -> Z (* CountK *) ->
  Z (* BlockCountK *) -> Z (* ldc *) -> option ptr (* Bias *) ->
  Memory -> Memory * Z.

Definition QuantizeARow_CompInt8_Fn : Type :=
  Z (* BlkLen *) -> ptr (* A *) -> Z (* CountK *) -> ptr (* QuantA *) ->
  Memory -> Memory.

(** [struct MLAS_SQNBIT_GEMM_DISPATCH]: eight function pointers, each of
    which may be null. *)
Record MLAS_SQNBIT_GEMM_DISPATCH : Type := {
  SQ4BitGemmPackQuantBDataSize : option SQ4BitGemmPackQuantBDataSize_Fn;
  SQ4BitGemmPackQuantBData : option SQ4BitGemmPackQuantBData_Fn;
  SQ4BitGemmPerGemmWorkspaceSize : option SQ4BitGemmPerGemmWorkspaceSize_Fn;
  SQ4BitGemmPerGemmWorkspaceAlignment :
    option SQ4BitGemmPerGemmWorkspaceAlignment_Fn;
  SQ4BitGemmM1Kernel_CompFp32 : option SQ4BitGemmM1Kernel_CompFp32_Fn;
  Q4BitBlkDequantBForSgemm_CompFp32 :
    option Q4BitBlkDequantBForSgemm_CompFp32_Fn;
  SQ4BitGemmKernel_CompInt8 : option SQ4BitGemmKernel_CompInt8_Fn;
  QuantizeARow_CompInt8 : option QuantizeARow_CompInt8_Fn
}.

(** The value a default-constructed structure has: every member carries the
    initializer [= nullptr]. *)
Definition default_dispatch : MLAS_SQNBIT_GEMM_DISPATCH := {|
  SQ4BitGemmPackQuantBDataSize := None;
  SQ4BitGemmPackQuantBData := None;
  SQ4BitGemmPerGemmWorkspaceSize := None;
  SQ4BitGemmPerGemmWorkspaceAlignment := None;
  SQ4BitGemmM1Kernel_CompFp32 := None;
  Q4BitBlkDequantBForSgemm_CompFp32 := None;
  SQ4BitGemmKernel_CompInt8 := None;
  QuantizeARow_CompInt8 := None
|}.

(** The members of the structure, in declaration order. *)
Inductive Slot : Type :=
  | SlotPackQuantBDataSize
  | SlotPackQuantBData
  | SlotPerGemmWorkspaceSize
  | SlotPerGemmWorkspaceAlignment
  | SlotM1Kernel_CompFp32
  | SlotBlkDequantBForSgemm_CompFp32
  | SlotKernel_CompInt8
  | SlotQuantizeARow_CompInt8.

Definition all_slots : list Slot :=
  [ SlotPackQuantBDataSize; SlotPackQuantBData; SlotPerGemmWorkspaceSize;
    SlotPerGemmWorkspaceAlignment; SlotM1Kernel_CompFp32;
    SlotBlkDequantBForSgemm_CompFp32; SlotKernel_CompInt8;
    SlotQuantizeARow_CompInt8 ].

Definition slot_fn (s : Slot) : Type :=
  match s with
  | SlotPackQuantBDataSize => SQ4BitGemmPackQuantBDataSize_Fn
  | SlotPackQuantBData => SQ4BitGemmPackQuantBData_Fn
  | SlotPerGemmWorkspaceSize => SQ4BitGemmPerGemmWorkspaceSize_Fn
  | SlotPerGemmWorkspaceAlignment => SQ4BitGemmPerGemmWorkspaceAlignment_Fn
  | SlotM1Kernel_CompFp32 => SQ4BitGemmM1Kernel_CompFp32_Fn
  | SlotBlkDequantBForSgemm_CompFp32 => Q4BitBlkDequantBForSgemm_CompFp32_Fn
  | SlotKernel_CompInt8 => SQ4BitGemmKernel_CompInt8_Fn
  | SlotQuantizeARow_CompInt8 => QuantizeARow_CompInt8_Fn
  end.

(** Reading a member. *)
Definition slot_of (d : MLAS_SQNBIT_GEMM_DISPATCH) (s : Slot)
  : option (slot_fn s) :=
  match s with
  | SlotPackQuantBDataSize => SQ4BitGemmPackQuantBDataSize d
  | SlotPackQuantBData => SQ4BitGemmPackQuantBData d
  | SlotPerGemmWorkspaceSize => SQ4BitGemmPerGemmWorkspaceSize d
  | SlotPerGemmWorkspaceAlignment => SQ4BitGemmPerGemmWorkspaceAlignment d
  | SlotM1Kernel_CompFp32 => SQ4BitGemmM1Kernel_CompFp32 d
  | SlotBlkDequantBForSgemm_CompFp32 => Q4BitBlkDequantBForSgemm_CompFp32 d
  | SlotKernel_CompInt8 => SQ4BitGemmKernel_CompInt8 d
  | SlotQuantizeARow_CompInt8 => QuantizeARow_CompInt8 d
  end.

(** [d.member != nullptr]. *)
Definition is_bound (d : MLAS_SQNBIT_GEMM_DISPATCH) (s : Slot) : bool :=
  match slot_of d s with
  | Some _ => true
  | None => false
  end.

(** ** Dequantized B buffer for the Sgemm fallback (lines 155-159)

    The comment on [FpData] of [Q4BitBlkDequantBForSgemm_CompFp32_Fn] gives
    two element counts as C expressions.  They are transcribed token by
    token; [*] and [/] associate to the left here as they do in C, and on
    non-negative operands [Z.div] is C's truncating division. *)

Definition FpData_elements (CountN CountK BlkLen : Z) : Z :=
  (CountN + 16 - 1) / 16 * 16 * (CountK + BlkLen - 1) / BlkLen * BlkLen.

Definition FpData_useful_elements (CountN CountK : Z) : Z :=
  (CountN + 16 - 1) / 16 * 16 * CountK.

(** The spec's reading of the same comment: each dimension rounded up to a
    multiple on its own, then the product. *)
Definition roundUp (x m : Z) : Z := (x + m - 1) / m * m.

Definition destFloats_elements (CountN CountK BlkLen : Z) : Z :=
  roundUp CountN 16 * roundUp CountK BlkLen.

(** * Properties *)

(** ** [size_t] facts *)

Lemma modulus_pos (size_bits : Z) :
  0 <= size_bits -> 0 < SizeT.modulus size_bits.
Proof.
  intros Hw. unfold SizeT.modulus. apply Z.pow_pos_nonneg; lia.
Qed.

Lemma modulus_lower_bound (size_bits : Z) :
  16 <= size_bits -> 65536 <= SizeT.modulus size_bits.
Proof.
  intros Hw. unfold SizeT.modulus.
  change 65536 with (2 ^ 16). apply Z.pow_le_mono_r; lia.
Qed.

Lemma modulus_multiple_of_8 (size_bits : Z) :
  3 <= size_bits -> SizeT.modulus size_bits = 8 * 2 ^ (size_bits - 3).
Proof.
  intros Hw. unfold SizeT.modulus.
  replace size_bits with (3 + (size_bits - 3)) at 1 by lia.
  rewrite Z.pow_add_r by lia. reflexivity.
Qed.

Lemma wrap_small (size_bits z : Z) :
  SizeT.in_range size_bits z -> SizeT.wrap size_bits z = z.
Proof.
  intros Hz. unfold SizeT.wrap. apply Z.mod_small. exact Hz.
Qed.

Lemma wrap_le (size_bits z : Z) :
  0 <= size_bits -> 0 <= z -> 0 <= SizeT.wrap size_bits z <= z.
Proof.
  intros Hw Hz. unfold SizeT.wrap.
  pose proof (modulus_pos size_bits Hw) as Hm.
  split.
  - apply Z.mod_pos_bound; lia.
  - apply Z.mod_le; lia.
Qed.

(** Wrapping does not change the residue modulo 8. *)
Lemma wrap_mod_8 (size_bits z : Z) :
  3 <= size_bits -> SizeT.wrap size_bits z mod 8 = z mod 8.
Proof.
  intros Hw. unfold SizeT.wrap.
  rewrite (modulus_multiple_of_8 size_bits Hw).
  assert (Hp : 0 < 2 ^ (size_bits - 3)) by (apply Z.pow_pos_nonneg; lia).
  rewrite Z.rem_mul_r by lia.
  rewrite (Z.mul_comm 8), Z.mod_add by lia.
  apply Z.mod_mod; lia.
Qed.

(** Dividing a wrapped value by 8 is the same as wrapping the quotient at
    three bits fewer. *)
Lemma wrap_div_8 (size_bits z : Z) :
  3 <= size_bits ->
  SizeT.wrap size_bits z / 8 = (z / 8) mod 2 ^ (size_bits - 3).
Proof.
  intros Hw. unfold SizeT.wrap.
  rewrite (modulus_multiple_of_8 size_bits Hw).
  assert (Hp : 0 < 2 ^ (size_bits - 3)) by (apply Z.pow_pos_nonneg; lia).
  rewrite Z.rem_mul_r by lia.
  pose proof (Z.mod_pos_bound z 8 ltac:(lia)) as Hr.
  rewrite (Z.mul_comm 8), Z.div_add by lia.
  rewrite Z.div_small by lia. reflexivity.
Qed.

(** ** Block layout calculator *)

Lemma BlkDataSize_no_wrap (size_bits BlkBitWidth BlkLen : Z) :
  SizeT.in_range size_bits (BlkLen * BlkBitWidth) ->
  MlasQNBitBlkDataSizeInBytes size_bits BlkBitWidth BlkLen
  = BlkLen * BlkBitWidth / 8.
Proof.
  intros Hfit. unfold MlasQNBitBlkDataSizeInBytes, SizeT.div, SizeT.mul.
  rewrite wrap_small by exact Hfit. reflexivity.
Qed.

(** [MlasDivRoundup up down] is the ceiling of [up / down]: the one integer
    [r] with [down * (r - 1) < up <= down * r]. *)
Lemma MlasDivRoundup_ceiling (up down : Z) :
  0 < down ->
  down * (MlasDivRoundup up down - 1) < up <= down * MlasDivRoundup up down.
Proof.
  intros Hd. unfold MlasDivRoundup.
  pose proof (Z.div_mod up down ltac:(lia)) as Hdm.
  pose proof (Z.mod_pos_bound up down Hd) as Hr.
  destruct (Z.eqb_spec (up mod down) 0) as [E | E]; nia.
Qed.

(** C1: for BlkBitWidth in {2,4,8} and BlkLen in {16,32,64,128} the product
    BlkLen*BlkBitWidth is a multiple of 8 and [MlasQNBitBlkDataSizeInBytes]
    returns exactly BlkLen*BlkBitWidth/8, on every [size_t] of at least 16
    bits. *)
Theorem BlkDataSize_exact (size_bits BlkBitWidth BlkLen : Z) :
  16 <= size_bits ->
  In BlkBitWidth [2; 4; 8] ->
  In BlkLen [16; 32; 64; 128] ->
  (BlkLen * BlkBitWidth) mod 8 = 0 /\
  MlasQNBitBlkDataSizeInBytes size_bits BlkBitWidth BlkLen
  = BlkLen * BlkBitWidth / 8 /\
  8 * MlasQNBitBlkDataSizeInBytes size_bits BlkBitWidth BlkLen
  = BlkLen * BlkBitWidth.
Proof.
  intros Hw Hbits Hlen.
  pose proof (modulus_lower_bound size_bits Hw) as Hm.
  assert (Hfit : SizeT.in_range size_bits (BlkLen * BlkBitWidth)).
  { unfold SizeT.in_range. simpl in Hbits, Hlen.
    destruct Hbits as [<- | [<- | [<- | []]]];
      destruct Hlen as [<- | [<- | [<- | [<- | []]]]]; lia. }
  rewrite (BlkDataSize_no_wrap _ _ _ Hfit).
  simpl in Hbits, Hlen.
  destruct Hbits as [<- | [<- | [<- | []]]];
    destruct Hlen as [<- | [<- | [<- | [<- | []]]]];
    repeat split; reflexivity.
Qed.

Lemma BlkDataSize_exact_witness :
  MlasQNBitBlkDataSizeInBytes 64 4 32 = 32 * 4 / 8.
Proof.
  apply (BlkDataSize_exact 64 4 32); simpl; lia.
Defined.

(** C2: [MlasQNBitZeroPointsForBlksSizeInBytes] returns ceil(BlkCount/2),
    the integer r with BlkCount <= 2r < BlkCount + 2, which is
    (BlkCount + 1) / 2, when BlkBitWidth <= 4, and returns BlkCount itself
    when BlkBitWidth > 4. *)
Theorem ZeroPointsSize_by_width (BlkBitWidth BlkCount : Z) :
  (BlkBitWidth <= 4 ->
   BlkCount <= 2 * MlasQNBitZeroPointsForBlksSizeInBytes BlkBitWidth BlkCount
   < BlkCount + 2 /\
   MlasQNBitZeroPointsForBlksSizeInBytes BlkBitWidth BlkCount
   = (BlkCount + 1) / 2) /\
  (4 < BlkBitWidth ->
   MlasQNBitZeroPointsForBlksSizeInBytes BlkBitWidth BlkCount = BlkCount).
Proof.
  unfold MlasQNBitZeroPointsForBlksSizeInBytes. split; intros Hb.
  - destruct (Z.leb_spec BlkBitWidth 4) as [_ | Hgt]; [| lia].
    pose proof (MlasDivRoundup_ceiling BlkCount 2 ltac:(lia)) as Hceil.
    split; [lia |].
    pose proof (Z.div_mod (BlkCount + 1) 2 ltac:(lia)).
    pose proof (Z.mod_pos_bound (BlkCount + 1) 2 ltac:(lia)).
    lia.
  - destruct (Z.leb_spec BlkBitWidth 4) as [Hle | _]; [lia | reflexivity].
Qed.

(** C9, as stated, fails where the product wraps: with a 64-bit [size_t],
    BlkBitWidth = 5 and BlkLen = 2^62 + 1 are [size_t] values whose product
    is not a multiple of 8, and the function returns 2^59, not
    floor(BlkLen*BlkBitWidth/8) = 5 * 2^59. *)
Lemma BlkDataSize_wrapped_product_is_not_floor :
  SizeT.in_range 64 5 /\
  SizeT.in_range 64 (2 ^ 62 + 1) /\
  ((2 ^ 62 + 1) * 5) mod 8 <> 0 /\
  MlasQNBitBlkDataSizeInBytes 64 5 (2 ^ 62 + 1) = 2 ^ 59 /\
  (2 ^ 62 + 1) * 5 / 8 = 5 * 2 ^ 59 /\
  MlasQNBitBlkDataSizeInBytes 64 5 (2 ^ 62 + 1) <> (2 ^ 62 + 1) * 5 / 8.
Proof.
  repeat split; try (vm_compute; first [reflexivity | discriminate]).
Qed.

(** C9, amended: when BlkLen*BlkBitWidth is not a multiple of 8 and fits in
    [size_t], the function neither fails nor rounds up: it returns
    floor(BlkLen*BlkBitWidth/8), which holds fewer bits than the block has.
    When the product does not fit it wraps first: the result is the
    truncated quotient of the wrapped product, that is
    floor(BlkLen*BlkBitWidth/8) reduced modulo 2^(size_bits-3), and it still
    understates the block size. *)
Theorem BlkDataSize_truncates (size_bits BlkBitWidth BlkLen : Z) :
  3 <= size_bits ->
  SizeT.in_range size_bits BlkBitWidth ->
  SizeT.in_range size_bits BlkLen ->
  (BlkLen * BlkBitWidth) mod 8 <> 0 ->
  let bytes := MlasQNBitBlkDataSizeInBytes size_bits BlkBitWidth BlkLen in
  (BlkLen * BlkBitWidth <= SizeT.SIZE_MAX size_bits ->
   bytes = BlkLen * BlkBitWidth / 8 /\
   8 * bytes < BlkLen * BlkBitWidth < 8 * (bytes + 1)) /\
  bytes = (BlkLen * BlkBitWidth / 8) mod 2 ^ (size_bits - 3) /\
  8 * bytes < SizeT.mul size_bits BlkLen BlkBitWidth < 8 * (bytes + 1) /\
  8 * bytes < BlkLen * BlkBitWidth.
Proof.
  intros Hw Hb Hl Hnd bytes.
  set (product := SizeT.mul size_bits BlkLen BlkBitWidth).
  assert (Hprod : product mod 8 <> 0).
  { unfold product, SizeT.mul. rewrite wrap_mod_8 by exact Hw. exact Hnd. }
  assert (Hbytes : bytes = product / 8) by reflexivity.
  pose proof (Z.div_mod product 8 ltac:(lia)) as Hdm.
  pose proof (Z.mod_pos_bound product 8 ltac:(lia)) as Hr.
  assert (Hle : product <= BlkLen * BlkBitWidth).
  { unfold product, SizeT.mul. apply wrap_le; [lia |].
    unfold SizeT.in_range in Hb, Hl. nia. }
  split.
  { intros Hfit.
    assert (Hsame : product = BlkLen * BlkBitWidth).
    { unfold product, SizeT.mul. apply wrap_small.
      unfold SizeT.in_range, SizeT.SIZE_MAX in *. nia. }
    rewrite <- Hsame. split; [exact Hbytes | lia]. }
  split.
  { unfold bytes, MlasQNBitBlkDataSizeInBytes, SizeT.div, SizeT.mul.
    apply wrap_div_8. exact Hw. }
  split; lia.
Qed.

Lemma BlkDataSize_truncates_witness :
  MlasQNBitBlkDataSizeInBytes 64 3 5 = 5 * 3 / 8 /\
  8 * MlasQNBitBlkDataSizeInBytes 64 3 5 < 5 * 3
  < 8 * (MlasQNBitBlkDataSizeInBytes 64 3 5 + 1).
Proof.
  refine (proj1 (BlkDataSize_truncates 64 3 5 _ _ _ _) _);
    first [ lia
          | unfold SizeT.in_range, SizeT.modulus; simpl; lia
          | unfold SizeT.SIZE_MAX, SizeT.modulus; simpl; lia
          | vm_compute; discriminate ].
Defined.

(** Fifteen bits are given one byte; and a product that wraps is cut down
    before it is divided. *)
Example BlkDataSize_3bit_blocks_of_5 :
  MlasQNBitBlkDataSizeInBytes 64 3 5 = 1 /\
  MlasQNBitBlkDataSizeInBytes 64 5 (2 ^ 62 + 1) = 2 ^ 59.
Proof. split; reflexivity. Qed.

Example ZeroPointsSize_samples :
  map (MlasQNBitZeroPointsForBlksSizeInBytes 4) [0; 1; 2; 5; 40]
  = [0; 1; 1; 3; 20] /\
  map (MlasQNBitZeroPointsForBlksSizeInBytes 2) [0; 1; 2; 5; 40]
  = [0; 1; 1; 3; 20] /\
  map (MlasQNBitZeroPointsForBlksSizeInBytes 8) [0; 1; 2; 5; 40]
  = [0; 1; 2; 5; 40].
Proof. repeat split; reflexivity. Qed.

(** C10: for every bit width and block count the zero-point byte count is at
    most BlkCount, does not decrease when BlkCount grows, and is 0 exactly
    when BlkCount is 0. *)
Theorem ZeroPointsSize_bounds (BlkBitWidth BlkCount BlkCount' : Z) :
  0 <= BlkCount ->
  BlkCount <= BlkCount' ->
  0 <= MlasQNBitZeroPointsForBlksSizeInBytes BlkBitWidth BlkCount <= BlkCount /\
  MlasQNBitZeroPointsForBlksSizeInBytes BlkBitWidth BlkCount
  <= MlasQNBitZeroPointsForBlksSizeInBytes BlkBitWidth BlkCount' /\
  (MlasQNBitZeroPointsForBlksSizeInBytes BlkBitWidth BlkCount = 0
   <-> BlkCount = 0).
Proof.
  intros Hc Hle. unfold MlasQNBitZeroPointsForBlksSizeInBytes.
  destruct (Z.leb_spec BlkBitWidth 4) as [_ | _]; [| lia].
  pose proof (MlasDivRoundup_ceiling BlkCount 2 ltac:(lia)).
  pose proof (MlasDivRoundup_ceiling BlkCount' 2 ltac:(lia)).
  lia.
Qed.

Lemma ZeroPointsSize_bounds_witness :
  0 <= MlasQNBitZeroPointsForBlksSizeInBytes 4 5 <= 5 /\
  MlasQNBitZeroPointsForBlksSizeInBytes 4 5
  <= MlasQNBitZeroPointsForBlksSizeInBytes 4 8 /\
  (MlasQNBitZeroPointsForBlksSizeInBytes 4 5 = 0 <-> 5 = 0).
Proof.
  apply (ZeroPointsSize_bounds 4 5 8); lia.
Defined.

(** ** Dequantized B buffer size *)

Lemma roundUp_bounds (x m : Z) :
  0 < m -> x <= roundUp x m < x + m.
Proof.
  intros Hm. unfold roundUp.
  pose proof (Z.div_mod (x + m - 1) m ltac:(lia)) as Hdm.
  pose proof (Z.mod_pos_bound (x + m - 1) m Hm) as Hr.
  lia.
Qed.

Lemma roundUp_nonneg (x m : Z) :
  0 <= x -> 0 < m -> 0 <= roundUp x m.
Proof.
  intros Hx Hm. pose proof (roundUp_bounds x m Hm). lia.
Qed.

(** Read left to right, the comment's expression divides the product
    [roundUp CountN 16 * (CountK + BlkLen - 1)] by [BlkLen]; that is never
    less than rounding [CountK] up first. *)
Lemma destFloats_le_FpData (CountN CountK BlkLen : Z) :
  0 <= CountN -> 0 <= CountK -> 1 <= BlkLen ->
  destFloats_elements CountN CountK BlkLen
  <= FpData_elements CountN CountK BlkLen.
Proof.
  intros HN HK HB. unfold destFloats_elements, FpData_elements.
  fold (roundUp CountN 16).
  pose proof (roundUp_nonneg CountN 16 HN ltac:(lia)) as HX.
  set (X := roundUp CountN 16) in *.
  unfold roundUp.
  set (q := (CountK + BlkLen - 1) / BlkLen).
  assert (Hq : q * BlkLen <= CountK + BlkLen - 1).
  { unfold q. rewrite Z.mul_comm. apply Z.mul_div_le. lia. }
  assert (Hdiv : X * q <= X * (CountK + BlkLen - 1) / BlkLen).
  { apply Z.div_le_lower_bound; [lia | nia]. }
  rewrite Z.mul_assoc. apply Z.mul_le_mono_nonneg_r; lia.
Qed.

(** C6: for CountN >= 0, CountK >= 0 and BlkLen >= 1 the requested element
    count roundUp(CountN,16) * roundUp(CountK,BlkLen) is at least the useful
    prefix roundUp(CountN,16) * CountK; so is the comment's expression
    evaluated left to right, which is at least the former. *)
Theorem FpData_covers_useful_elements (CountN CountK BlkLen : Z) :
  0 <= CountN -> 0 <= CountK -> 1 <= BlkLen ->
  FpData_useful_elements CountN CountK = roundUp CountN 16 * CountK /\
  FpData_useful_elements CountN CountK
  <= destFloats_elements CountN CountK BlkLen /\
  destFloats_elements CountN CountK BlkLen
  <= FpData_elements CountN CountK BlkLen.
Proof.
  intros HN HK HB.
  split; [reflexivity |].
  split; [| apply destFloats_le_FpData; assumption].
  unfold FpData_useful_elements, destFloats_elements.
  fold (roundUp CountN 16).
  pose proof (roundUp_nonneg CountN 16 HN ltac:(lia)).
  pose proof (roundUp_bounds CountK BlkLen ltac:(lia)).
  apply Z.mul_le_mono_nonneg_l; lia.
Qed.

Lemma FpData_covers_useful_elements_witness :
  FpData_useful_elements 7 40 = roundUp 7 16 * 40 /\
  FpData_useful_elements 7 40 <= destFloats_elements 7 40 32 /\
  destFloats_elements 7 40 32 <= FpData_elements 7 40 32.
Proof.
  apply (FpData_covers_useful_elements 7 40 32); lia.
Defined.

(** The two readings of the comment's expression differ: 16 columns, 2 rows
    and blocks of 3 give 48 one way and 63 the other. *)
Example FpData_elements_left_to_right :
  destFloats_elements 16 2 3 = 48 /\ FpData_elements 16 2 3 = 63.
Proof. split; reflexivity. Qed.

(** ** Dispatch structure *)

Lemma all_slots_complete (s : Slot) : In s all_slots.
Proof. destruct s; simpl; tauto. Qed.

(** Every member of a default-constructed structure is null. *)
Lemma default_dispatch_unbound (s : Slot) :
  is_bound default_dispatch s = false.
Proof. destruct s; reflexivity. Qed.

(** * Further properties of the sizing helpers *)

(** ** [MlasQNBitBlkDataSizeInBytes] *)

(** X1: whenever BlkLen*BlkBitWidth fits in [size_t], eight times the
    returned byte count is at most the number of bits and misses it by fewer
    than eight; no bit is lost exactly when the number of bits is a multiple
    of 8. *)
Theorem BlkDataSize_bits_kept (size_bits BlkBitWidth BlkLen : Z) :
  SizeT.in_range size_bits (BlkLen * BlkBitWidth) ->
  8 * MlasQNBitBlkDataSizeInBytes size_bits BlkBitWidth BlkLen
  <= BlkLen * BlkBitWidth
  < 8 * MlasQNBitBlkDataSizeInBytes size_bits BlkBitWidth BlkLen + 8 /\
  (8 * MlasQNBitBlkDataSizeInBytes size_bits BlkBitWidth BlkLen
   = BlkLen * BlkBitWidth
   <-> (BlkLen * BlkBitWidth) mod 8 = 0).
Proof.
  intros Hfit. rewrite (BlkDataSize_no_wrap _ _ _ Hfit).
  pose proof (Z.div_mod (BlkLen * BlkBitWidth) 8 ltac:(lia)) as Hdm.
  pose proof (Z.mod_pos_bound (BlkLen * BlkBitWidth) 8 ltac:(lia)) as Hr.
  lia.
Qed.

Lemma BlkDataSize_bits_kept_witness :
  8 * MlasQNBitBlkDataSizeInBytes 64 3 7 <= 7 * 3
  < 8 * MlasQNBitBlkDataSizeInBytes 64 3 7 + 8.
Proof.
  apply (BlkDataSize_bits_kept 64 3 7).
  unfold SizeT.in_range, SizeT.modulus. simpl. lia.
Defined.

(** X2: for any arguments the result is the true quotient
    BlkLen*BlkBitWidth/8 reduced modulo 2^(size_bits-3); it is therefore
    never above SIZE_MAX/8, and with BlkBitWidth = 8 it is BlkLen only up to
    that bound. *)
Theorem BlkDataSize_wraps_at_eighth (size_bits BlkBitWidth BlkLen : Z) :
  3 <= size_bits ->
  MlasQNBitBlkDataSizeInBytes size_bits BlkBitWidth BlkLen
  = (BlkLen * BlkBitWidth / 8) mod 2 ^ (size_bits - 3) /\
  0 <= MlasQNBitBlkDataSizeInBytes size_bits BlkBitWidth BlkLen
  <= SizeT.SIZE_MAX size_bits / 8 /\
  MlasQNBitBlkDataSizeInBytes size_bits 8 BlkLen
  = BlkLen mod 2 ^ (size_bits - 3).
Proof.
  intros Hw.
  assert (Hp : 0 < 2 ^ (size_bits - 3)) by (apply Z.pow_pos_nonneg; lia).
  assert (Heq : forall b l,
             MlasQNBitBlkDataSizeInBytes size_bits b l
             = (l * b / 8) mod 2 ^ (size_bits - 3)).
  { intros b l. unfold MlasQNBitBlkDataSizeInBytes, SizeT.div, SizeT.mul.
    apply wrap_div_8. exact Hw. }
  split; [apply Heq |]. split.
  - rewrite Heq.
    pose proof (Z.mod_pos_bound (BlkLen * BlkBitWidth / 8)
                  (2 ^ (size_bits - 3)) Hp) as Hr.
    split; [lia |].
    apply Z.div_le_lower_bound; [lia |].
    unfold SizeT.SIZE_MAX. rewrite (modulus_multiple_of_8 size_bits Hw). lia.
  - rewrite Heq, Z.div_mul by lia. reflexivity.
Qed.

Lemma BlkDataSize_wraps_at_eighth_witness :
  MlasQNBitBlkDataSizeInBytes 64 8 (2 ^ 61 + 5) = (2 ^ 61 + 5) mod 2 ^ (64 - 3).
Proof.
  apply (BlkDataSize_wraps_at_eighth 64 8 (2 ^ 61 + 5)). lia.
Defined.

(** X3: whenever BlkLen*BlkBitWidth fits in [size_t], the function returns
    0 exactly when there are fewer than eight bits: for an empty block or a
    zero width, and also for a non-empty block of up to seven bits. *)
Theorem BlkDataSize_zero_iff (size_bits BlkBitWidth BlkLen : Z) :
  SizeT.in_range size_bits (BlkLen * BlkBitWidth) ->
  (MlasQNBitBlkDataSizeInBytes size_bits BlkBitWidth BlkLen = 0
   <-> BlkLen * BlkBitWidth < 8).
Proof.
  intros Hfit. rewrite (BlkDataSize_no_wrap _ _ _ Hfit).
  unfold SizeT.in_range in Hfit.
  pose proof (Z.div_mod (BlkLen * BlkBitWidth) 8 ltac:(lia)) as Hdm.
  pose proof (Z.mod_pos_bound (BlkLen * BlkBitWidth) 8 ltac:(lia)) as Hr.
  lia.
Qed.

Lemma BlkDataSize_zero_iff_witness :
  MlasQNBitBlkDataSizeInBytes 64 1 7 = 0 <-> 7 * 1 < 8.
Proof.
  apply (BlkDataSize_zero_iff 64 1 7).
  unfold SizeT.in_range, SizeT.modulus. simpl. lia.
Defined.

(** X4: as long as the larger product fits in [size_t], a longer block or a
    wider value never needs fewer bytes. *)
Theorem BlkDataSize_monotone
    (size_bits BlkBitWidth BlkBitWidth' BlkLen BlkLen' : Z) :
  0 <= BlkBitWidth <= BlkBitWidth' ->
  0 <= BlkLen <= BlkLen' ->
  SizeT.in_range size_bits (BlkLen' * BlkBitWidth') ->
  MlasQNBitBlkDataSizeInBytes size_bits BlkBitWidth BlkLen
  <= MlasQNBitBlkDataSizeInBytes size_bits BlkBitWidth' BlkLen'.
Proof.
  intros Hb Hl Hfit.
  assert (Hle : BlkLen * BlkBitWidth <= BlkLen' * BlkBitWidth') by nia.
  assert (Hfit0 : SizeT.in_range size_bits (BlkLen * BlkBitWidth)).
  { unfold SizeT.in_range in *. nia. }
  rewrite (BlkDataSize_no_wrap _ _ _ Hfit), (BlkDataSize_no_wrap _ _ _ Hfit0).
  apply Z.div_le_mono; lia.
Qed.

Lemma BlkDataSize_monotone_witness :
  MlasQNBitBlkDataSizeInBytes 64 2 16 <= MlasQNBitBlkDataSizeInBytes 64 4 32.
Proof.
  apply (BlkDataSize_monotone 64 2 4 16 32); try lia.
  unfold SizeT.in_range, SizeT.modulus. simpl. lia.
Defined.

(** Where the product wraps the order is lost: a longer block is given fewer
    bytes. *)
Example BlkDataSize_not_monotone_when_wrapping :
  MlasQNBitBlkDataSizeInBytes 64 8 (2 ^ 61) = 0 /\
  MlasQNBitBlkDataSizeInBytes 64 8 (2 ^ 61 - 1) = 2 ^ 61 - 1.
Proof. split; reflexivity. Qed.

(** X5: the bytes of n blocks, counted block by block, never exceed the
    bytes of the same n*BlkLen values counted as one block, and the two
    agree when one block is a whole number of bytes. *)
Theorem BlkDataSize_of_blocks (size_bits BlkBitWidth BlkLen n : Z) :
  0 <= BlkBitWidth -> 0 <= BlkLen -> 0 <= n ->
  SizeT.in_range size_bits (n * BlkLen * BlkBitWidth) ->
  n * MlasQNBitBlkDataSizeInBytes size_bits BlkBitWidth BlkLen
  <= MlasQNBitBlkDataSizeInBytes size_bits BlkBitWidth (n * BlkLen) /\
  ((BlkLen * BlkBitWidth) mod 8 = 0 ->
   n * MlasQNBitBlkDataSizeInBytes size_bits BlkBitWidth BlkLen
   = MlasQNBitBlkDataSizeInBytes size_bits BlkBitWidth (n * BlkLen)).
Proof.
  intros Hb Hl Hn Hfit.
  rewrite (BlkDataSize_no_wrap size_bits BlkBitWidth (n * BlkLen) Hfit).
  destruct (Z.eq_dec n 0) as [-> | Hn0].
  { rewrite !Z.mul_0_l. split; [reflexivity | intros _; reflexivity]. }
  assert (Hfit1 : SizeT.in_range size_bits (BlkLen * BlkBitWidth)).
  { unfold SizeT.in_range in *. nia. }
  rewrite (BlkDataSize_no_wrap _ _ _ Hfit1).
  set (p := BlkLen * BlkBitWidth) in *.
  replace (n * BlkLen * BlkBitWidth) with (n * p) by (unfold p; ring).
  pose proof (Z.div_mod p 8 ltac:(lia)) as Hdm.
  pose proof (Z.mod_pos_bound p 8 ltac:(lia)) as Hr.
  split.
  - apply Z.div_le_lower_bound; [lia | nia].
  - intros Hdiv. rewrite Hdiv, Z.add_0_r in Hdm.
    rewrite Hdm at 2.
    replace (n * (8 * (p / 8))) with (n * (p / 8) * 8) by ring.
    rewrite Z.div_mul by lia. reflexivity.
Qed.

Lemma BlkDataSize_of_blocks_witness :
  3 * MlasQNBitBlkDataSizeInBytes 64 3 5
  <= MlasQNBitBlkDataSizeInBytes 64 3 (3 * 5).
Proof.
  apply (BlkDataSize_of_blocks 64 3 5 3); try lia.
  unfold SizeT.in_range, SizeT.modulus. simpl. lia.
Defined.


(** ** [MlasQNBitZeroPointsForBlksSizeInBytes] *)

Lemma ZeroPointsSize_packed (BlkBitWidth BlkCount : Z) :
  BlkBitWidth <= 4 ->
  MlasQNBitZeroPointsForBlksSizeInBytes BlkBitWidth BlkCount
  = (BlkCount + 1) / 2.
Proof.
  intros Hb. unfold MlasQNBitZeroPointsForBlksSizeInBytes.
  destruct (Z.leb_spec BlkBitWidth 4) as [_ | Hgt]; [| lia].
  pose proof (MlasDivRoundup_ceiling BlkCount 2 ltac:(lia)).
  pose proof (Z.div_mod (BlkCount + 1) 2 ltac:(lia)).
  pose proof (Z.mod_pos_bound (BlkCount + 1) 2 ltac:(lia)).
  lia.
Qed.

Lemma ZeroPointsSize_unpacked (BlkBitWidth BlkCount : Z) :
  4 < BlkBitWidth ->
  MlasQNBitZeroPointsForBlksSizeInBytes BlkBitWidth BlkCount = BlkCount.
Proof.
  intros Hb. unfold MlasQNBitZeroPointsForBlksSizeInBytes.
  destruct (Z.leb_spec BlkBitWidth 4) as [Hle | _]; [lia | reflexivity].
Qed.

(** X6: with two blocks per byte (BlkBitWidth <= 4) the zero point of block
    k lives in byte k/2, with one per byte in byte k; for every block
    k < BlkCount that byte lies inside the returned size, and the last
    block uses the last byte, so no trailing byte is unused. *)
Theorem ZeroPointsSize_addresses_every_block (BlkBitWidth BlkCount k : Z) :
  0 <= k < BlkCount ->
  (BlkBitWidth <= 4 ->
   0 <= k / 2 < MlasQNBitZeroPointsForBlksSizeInBytes BlkBitWidth BlkCount /\
   (BlkCount - 1) / 2
   = MlasQNBitZeroPointsForBlksSizeInBytes BlkBitWidth BlkCount - 1) /\
  (4 < BlkBitWidth ->
   0 <= k < MlasQNBitZeroPointsForBlksSizeInBytes BlkBitWidth BlkCount /\
   BlkCount - 1
   = MlasQNBitZeroPointsForBlksSizeInBytes BlkBitWidth BlkCount - 1).
Proof.
  intros Hk. split; intros Hb.
  - rewrite (ZeroPointsSize_packed _ _ Hb).
    pose proof (Z.div_mod k 2 ltac:(lia)).
    pose proof (Z.mod_pos_bound k 2 ltac:(lia)).
    pose proof (Z.div_mod (BlkCount + 1) 2 ltac:(lia)).
    pose proof (Z.mod_pos_bound (BlkCount + 1) 2 ltac:(lia)).
    pose proof (Z.div_mod (BlkCount - 1) 2 ltac:(lia)).
    pose proof (Z.mod_pos_bound (BlkCount - 1) 2 ltac:(lia)).
    lia.
  - rewrite (ZeroPointsSize_unpacked _ _ Hb). lia.
Qed.

Lemma ZeroPointsSize_addresses_every_block_witness :
  0 <= 4 / 2 < MlasQNBitZeroPointsForBlksSizeInBytes 4 5 /\
  (5 - 1) / 2 = MlasQNBitZeroPointsForBlksSizeInBytes 4 5 - 1.
Proof.
  apply (ZeroPointsSize_addresses_every_block 4 5 4); lia.
Defined.

(** X7: N columns of k blocks, each column with a zero-point array of its
    own, take as many bytes as one array for all N*k blocks when zero points
    are one per byte or k is even; with two per byte and k odd every column
    ends in a half-used byte, and the columns together take N/2 bytes
    more. *)
Theorem ZeroPointsSize_of_columns (BlkBitWidth N k : Z) :
  0 <= N -> 0 <= k ->
  N * MlasQNBitZeroPointsForBlksSizeInBytes BlkBitWidth k
  = MlasQNBitZeroPointsForBlksSizeInBytes BlkBitWidth (N * k)
    + (if (BlkBitWidth <=? 4) && Z.odd k then N / 2 else 0).
Proof.
  intros HN Hk.
  destruct (Z.leb_spec BlkBitWidth 4) as [Hb | Hb]; simpl.
  - rewrite !(ZeroPointsSize_packed _ _ Hb).
    pose proof (Z.div_mod k 2 ltac:(lia)) as Hk2.
    pose proof (Z.mod_pos_bound k 2 ltac:(lia)) as Hkr.
    pose proof (Z.div_mod N 2 ltac:(lia)) as HN2.
    pose proof (Z.mod_pos_bound N 2 ltac:(lia)) as HNr.
    set (j := k / 2) in *. set (m := N / 2) in *.
    rewrite Zodd_mod.
    destruct (Z.eqb_spec (k mod 2) 1) as [Hodd | Heven].
    + assert (Hk' : k = 2 * j + 1) by lia.
      replace (k + 1) with ((j + 1) * 2) by lia.
      rewrite Z.div_mul by lia.
      assert (HNk : (N * k + 1) / 2 = N * j + (N + 1) / 2).
      { replace (N * k + 1) with (N + 1 + N * j * 2) by (rewrite Hk'; ring).
        rewrite Z.div_add by lia. lia. }
      rewrite HNk.
      pose proof (Z.div_mod (N + 1) 2 ltac:(lia)).
      pose proof (Z.mod_pos_bound (N + 1) 2 ltac:(lia)).
      lia.
    + assert (Hk' : k = 2 * j) by lia.
      replace (k + 1) with (1 + j * 2) by lia.
      rewrite Z.div_add by lia.
      replace (N * k + 1) with (1 + N * j * 2) by (rewrite Hk'; ring).
      rewrite Z.div_add by lia.
      change (1 / 2) with 0. lia.
  - rewrite !(ZeroPointsSize_unpacked _ _ Hb). lia.
Qed.

Lemma ZeroPointsSize_of_columns_witness :
  3 * MlasQNBitZeroPointsForBlksSizeInBytes 4 5
  = MlasQNBitZeroPointsForBlksSizeInBytes 4 (3 * 5)
    + (if (4 <=? 4) && Z.odd 5 then 3 / 2 else 0).
Proof.
  apply (ZeroPointsSize_of_columns 4 3 5); lia.
Defined.

(** X8: for two-per-byte zero points the size rounds up where the block
    data size of 4-bit values rounds down: over the same count the two
    differ by one exactly when the count is odd. *)
Theorem ZeroPointsSize_rounds_up_BlkDataSize_down
    (size_bits BlkBitWidth BlkCount : Z) :
  BlkBitWidth <= 4 ->
  SizeT.in_range size_bits (BlkCount * 4) ->
  MlasQNBitZeroPointsForBlksSizeInBytes BlkBitWidth BlkCount
  = MlasQNBitBlkDataSizeInBytes size_bits 4 BlkCount + BlkCount mod 2.
Proof.
  intros Hb Hfit.
  rewrite (ZeroPointsSize_packed _ _ Hb), (BlkDataSize_no_wrap _ _ _ Hfit).
  pose proof (Z.div_mod BlkCount 2 ltac:(lia)).
  pose proof (Z.mod_pos_bound BlkCount 2 ltac:(lia)).
  pose proof (Z.div_mod (BlkCount + 1) 2 ltac:(lia)).
  pose proof (Z.mod_pos_bound (BlkCount + 1) 2 ltac:(lia)).
  pose proof (Z.div_mod (BlkCount * 4) 8 ltac:(lia)).
  pose proof (Z.mod_pos_bound (BlkCount * 4) 8 ltac:(lia)).
  lia.
Qed.

Lemma ZeroPointsSize_rounds_up_BlkDataSize_down_witness :
  MlasQNBitZeroPointsForBlksSizeInBytes 4 5
  = MlasQNBitBlkDataSizeInBytes 64 4 5 + 5 mod 2.
Proof.
  apply (ZeroPointsSize_rounds_up_BlkDataSize_down 64 4 5); [lia |].
  unfold SizeT.in_range, SizeT.modulus. simpl. lia.
Defined.

(** X9: the returned bytes have room for BlkCount zero points of
    BlkBitWidth bits each exactly when BlkBitWidth is at most 8 (or there
    are no blocks): above 8 bits the function still counts one byte per
    block. *)
Theorem ZeroPointsSize_has_room_iff (BlkBitWidth BlkCount : Z) :
  0 <= BlkBitWidth -> 0 <= BlkCount ->
  (BlkCount * BlkBitWidth
   <= 8 * MlasQNBitZeroPointsForBlksSizeInBytes BlkBitWidth BlkCount
   <-> BlkBitWidth <= 8 \/ BlkCount = 0).
Proof.
  intros Hb Hc.
  destruct (Z.le_gt_cases BlkBitWidth 4) as [Hle | Hgt].
  - rewrite (ZeroPointsSize_packed _ _ Hle).
    pose proof (Z.div_mod (BlkCount + 1) 2 ltac:(lia)).
    pose proof (Z.mod_pos_bound (BlkCount + 1) 2 ltac:(lia)).
    split; [intros _; left; lia | intros _; nia].
  - rewrite (ZeroPointsSize_unpacked _ _ Hgt).
    split; [intros H | intros [H | H]]; nia.
Qed.

Lemma ZeroPointsSize_has_room_iff_witness :
  5 * 16 <= 8 * MlasQNBitZeroPointsForBlksSizeInBytes 16 5
  <-> 16 <= 8 \/ 5 = 0.
Proof.
  apply (ZeroPointsSize_has_room_iff 16 5); lia.
Defined.

(** ** The [FpData] element counts *)

(** X10: the column count of the FpData comment, (CountN + 16 - 1) / 16 * 16
    and in general [roundUp x m], is the least multiple of m that is not
    below x. *)
Theorem roundUp_least_multiple (x m : Z) :
  0 < m ->
  (m | roundUp x m) /\
  x <= roundUp x m /\
  (forall y, (m | y) -> x <= y -> roundUp x m <= y) /\
  forall CountK, FpData_useful_elements x CountK = roundUp x 16 * CountK.
Proof.
  intros Hm. split; [| split; [| split]].
  - unfold roundUp. exists ((x + m - 1) / m). reflexivity.
  - apply roundUp_bounds. exact Hm.
  - intros y [t ->] Hxy. unfold roundUp.
    apply Z.mul_le_mono_nonneg_r; [lia |].
    apply Z.lt_succ_r. apply Z.div_lt_upper_bound; [lia | nia].
  - intros CountK. reflexivity.
Qed.

Lemma roundUp_least_multiple_witness :
  (16 | roundUp 17 16) /\ 17 <= roundUp 17 16.
Proof.
  refine (let H := roundUp_least_multiple 17 16 _ in
          conj (proj1 H) (proj1 (proj2 H))).
  lia.
Defined.

(** X11: under either reading of the comment's expression the space asked
    for beyond the useful elements is less than one block per padded
    column, at most roundUp(CountN,16) * (BlkLen - 1) elements; and when
    CountK is a multiple of BlkLen, rounding CountK up adds nothing. *)
Theorem FpData_excess_bounded (CountN CountK BlkLen : Z) :
  0 <= CountN -> 0 <= CountK -> 1 <= BlkLen ->
  FpData_elements CountN CountK BlkLen
  <= FpData_useful_elements CountN CountK
     + roundUp CountN 16 * (BlkLen - 1) /\
  destFloats_elements CountN CountK BlkLen
  <= FpData_useful_elements CountN CountK
     + roundUp CountN 16 * (BlkLen - 1) /\
  (CountK mod BlkLen = 0 ->
   destFloats_elements CountN CountK BlkLen
   = FpData_useful_elements CountN CountK).
Proof.
  intros HN HK HB.
  pose proof (roundUp_nonneg CountN 16 HN ltac:(lia)) as HX.
  assert (Hltr : FpData_elements CountN CountK BlkLen
                 <= roundUp CountN 16 * (CountK + BlkLen - 1)).
  { unfold FpData_elements. fold (roundUp CountN 16).
    rewrite (Z.mul_comm _ BlkLen). apply Z.mul_div_le. lia. }
  assert (Huse : FpData_useful_elements CountN CountK
                 = roundUp CountN 16 * CountK) by reflexivity.
  split; [rewrite Huse; nia |].
  split.
  - pose proof (destFloats_le_FpData CountN CountK BlkLen HN HK HB).
    rewrite Huse. nia.
  - intros Hdiv. rewrite Huse. unfold destFloats_elements. f_equal.
    unfold roundUp.
    pose proof (Z.div_mod CountK BlkLen ltac:(lia)) as Hdm.
    rewrite Hdiv, Z.add_0_r in Hdm.
    replace (CountK + BlkLen - 1) with (BlkLen - 1 + CountK / BlkLen * BlkLen)
      by lia.
    rewrite Z.div_add by lia. rewrite Z.div_small by lia. lia.
Qed.

Lemma FpData_excess_bounded_witness :
  FpData_elements 7 40 32
  <= FpData_useful_elements 7 40 + roundUp 7 16 * (32 - 1).
Proof.
  apply (FpData_excess_bounded 7 40 32); lia.
Defined.
